(** * Dodge the Blocks: the simulation loop of [game.js]

    A shallow embedding of the game's state, its frame loop and its
    collision test, followed by the properties the specification states
    about them.

    Numbers.  JavaScript numbers are modelled as exact rationals ([Q]):
    the development is about the arithmetic the code writes down, without
    [NaN] and infinities.  Statements about numeric values use [==]
    ([Qeq]), [<=] and [<] on [Q], and they are chosen so that they also hold
    of the code's own double-precision arithmetic, where a sum can round
    back to one of its arguments: bounds that rounding can reach are stated
    with [<=], and a sum the code compares is compared as the code writes
    it.  Module [Double] has the three lines where this matters most, over
    binary64 floats, with the inputs at which they differ from their exact
    counterparts.

    Randomness.  Every call of [Math.random()] is an input: the four draws a
    call of [spawnBlock] makes are passed in as a [Draws] record, each draw
    a rational in [[0, 1)].

    The environment.  The page ([canvas], score label, start button) is not
    part of [game.js]; the canvas dimensions are parameters ([Canvas.t],
    non-negative integers as in the DOM), the score label and the canvas
    contents are fields of the state. *)

From Stdlib Require Import QArith Qround Lqa Lia Bool String.
From Stdlib Require PrimFloat.
From stdpp Require Import base list.

Local Open Scope Q_scope.

(** ** Numbers and comparisons *)

(** [x < y] as a boolean test. *)
Definition Qlt_bool (x y : Q) : bool := negb (Qle_bool y x).

(** [Math.max(x, y)] and [Math.min(x, y)]. *)
Definition Math_max (x y : Q) : Q := if Qle_bool x y then y else x.
Definition Math_min (x y : Q) : Q := if Qle_bool x y then x else y.

(** [Math.floor(v)], as a JavaScript number again. *)
Definition Math_floor (v : Q) : Q := inject_Z (Qfloor v).

(** game.js line 32:
    [function clamp(v, a, b) { return Math.max(a, Math.min(b, v)); }] *)
Definition clamp (v a b : Q) : Q := Math_max a (Math_min b v).

(** game.js line 33:
    [function rand(min, max) { return Math.random() * (max - min) + min; }]
    with the result [r] of [Math.random()] as an argument. *)
Definition rand (r : Q) (min max : Q) : Q := r * (max - min) + min.

(** What [Math.random()] may return. *)
Definition unit_draw (r : Q) : Prop := 0 <= r /\ r < 1.

(** ** The page *)

Module Canvas.
Record t := mk { width : N; height : N }.
End Canvas.

(** [canvas.width] and [canvas.height] as numbers. *)
Definition canvas_width (cv : Canvas.t) : Q := inject_Z (Z.of_N (Canvas.width cv)).
Definition canvas_height (cv : Canvas.t) : Q := inject_Z (Z.of_N (Canvas.height cv)).

(** What [draw] asks of the 2D context. *)
Inductive DrawCmd :=
| ClearRect (x y w h : Q)
| FillRect (fillStyle : string) (x y w h : Q)
| FillCircle (fillStyle : string) (cx cy r : Q).

(** ** Entities *)

(** game.js lines 19-26: the [player] object. *)
Module Player.
Record t := mk { w : Q; h : Q; x : Q; y : Q; speed : Q; vx : Q }.
Definition set_x (v : Q) (p : t) : t := mk (w p) (h p) v (y p) (speed p) (vx p).
Definition set_y (v : Q) (p : t) : t := mk (w p) (h p) (x p) v (speed p) (vx p).
End Player.

(** game.js lines 68-70: the objects pushed on [blocks]. *)
Module Block.
Inductive shape_t := rect | circle.
Record t := mk { x : Q; y : Q; w : Q; h : Q; speed : Q; shape : shape_t }.
Definition set_y (v : Q) (b : t) : t := mk (x b) v (w b) (h b) (speed b) (shape b).
End Block.

(** game.js line 29: [const keys = { left: false, right: false };] *)
Module Keys.
Record t := mk { left : bool; right : bool }.
Definition set_left (v : bool) (k : t) : t := mk v (right k).
Definition set_right (v : bool) (k : t) : t := mk (left k) v.
End Keys.

(** [checkCollision] reads the fields [x], [y], [w] and [h] of whatever it is
    given; both the player and the blocks have them. *)
Class Rect (A : Type) := {
  rect_x : A -> Q;
  rect_y : A -> Q;
  rect_w : A -> Q;
  rect_h : A -> Q
}.

#[export] Instance Player_Rect : Rect Player.t :=
  {| rect_x := Player.x; rect_y := Player.y; rect_w := Player.w; rect_h := Player.h |}.

#[export] Instance Block_Rect : Rect Block.t :=
  {| rect_x := Block.x; rect_y := Block.y; rect_w := Block.w; rect_h := Block.h |}.

(** A bare rectangle, for statements about [checkCollision] alone. *)
Module Box.
Record t := mk { x : Q; y : Q; w : Q; h : Q }.
End Box.

#[export] Instance Box_Rect : Rect Box.t :=
  {| rect_x := Box.x; rect_y := Box.y; rect_w := Box.w; rect_h := Box.h |}.

(** game.js lines 140-142:
    [return a.x < b.x + b.w && a.x + a.w > b.x && a.y < b.y + b.h && a.y + a.h > b.y;] *)
Definition checkCollision {A B : Type} `{Rect A} `{Rect B} (a : A) (b : B) : bool :=
  Qlt_bool (rect_x a) (rect_x b + rect_w b)
  && Qlt_bool (rect_x b) (rect_x a + rect_w a)
  && Qlt_bool (rect_y a) (rect_y b + rect_h b)
  && Qlt_bool (rect_y b) (rect_y a + rect_h a).

(** ** Game state *)

(** The module-level variables of game.js (lines 11-16, 19-29) together with
    the two parts of the page the game writes to: the score label (the time
    last handed to [updateScoreDisplay], [None] before the first call; its
    text is ["Score: " + t.toFixed(2)]) and the canvas (the drawing commands
    of the last [draw]). *)
Record State := mkState {
  running : bool;
  lastTime : Q;
  elapsed : Q;
  spawnTimer : Q;
  spawnInterval : Q;
  blocks : list Block.t;
  player : Player.t;
  keys : Keys.t;
  score : option Q;
  screen : list DrawCmd
}.

Definition set_running (v : bool) (s : State) : State :=
  mkState v (lastTime s) (elapsed s) (spawnTimer s) (spawnInterval s)
          (blocks s) (player s) (keys s) (score s) (screen s).
Definition set_lastTime (v : Q) (s : State) : State :=
  mkState (running s) v (elapsed s) (spawnTimer s) (spawnInterval s)
          (blocks s) (player s) (keys s) (score s) (screen s).
Definition set_elapsed (v : Q) (s : State) : State :=
  mkState (running s) (lastTime s) v (spawnTimer s) (spawnInterval s)
          (blocks s) (player s) (keys s) (score s) (screen s).
Definition set_spawnTimer (v : Q) (s : State) : State :=
  mkState (running s) (lastTime s) (elapsed s) v (spawnInterval s)
          (blocks s) (player s) (keys s) (score s) (screen s).
Definition set_spawnInterval (v : Q) (s : State) : State :=
  mkState (running s) (lastTime s) (elapsed s) (spawnTimer s) v
          (blocks s) (player s) (keys s) (score s) (screen s).
Definition set_blocks (v : list Block.t) (s : State) : State :=
  mkState (running s) (lastTime s) (elapsed s) (spawnTimer s) (spawnInterval s)
          v (player s) (keys s) (score s) (screen s).
Definition set_player (v : Player.t) (s : State) : State :=
  mkState (running s) (lastTime s) (elapsed s) (spawnTimer s) (spawnInterval s)
          (blocks s) v (keys s) (score s) (screen s).
Definition set_keys (v : Keys.t) (s : State) : State :=
  mkState (running s) (lastTime s) (elapsed s) (spawnTimer s) (spawnInterval s)
          (blocks s) (player s) v (score s) (screen s).
Definition set_score (v : option Q) (s : State) : State :=
  mkState (running s) (lastTime s) (elapsed s) (spawnTimer s) (spawnInterval s)
          (blocks s) (player s) (keys s) v (screen s).
Definition set_screen (v : list DrawCmd) (s : State) : State :=
  mkState (running s) (lastTime s) (elapsed s) (spawnTimer s) (spawnInterval s)
          (blocks s) (player s) (keys s) (score s) v.

(** The state the script builds before its last line runs
    (lines 11-29): nothing drawn, score label untouched. *)
Definition initial (cv : Canvas.t) : State :=
  {| running := false;
     lastTime := 0;
     elapsed := 0;
     spawnTimer := 0;
     spawnInterval := 0.9;
     blocks := [];
     player := {| Player.w := 28; Player.h := 18;
                  Player.x := canvas_width cv / 2 - 24;
                  Player.y := canvas_height cv - 80;
                  Player.speed := 280; Player.vx := 0 |};
     keys := {| Keys.left := false; Keys.right := false |};
     score := None;
     screen := [] |}.

(** The four results of [Math.random()] that one call of [spawnBlock]
    consumes, in the order of the calls. *)
Record Draws := mkDraws {
  draw_width : Q;
  draw_x : Q;
  draw_speed : Q;
  draw_shape : Q
}.

Definition unit_draws (d : Draws) : Prop :=
  unit_draw (draw_width d) /\ unit_draw (draw_x d) /\
  unit_draw (draw_speed d) /\ unit_draw (draw_shape d).

(** ** Game functions *)

(** game.js lines 145-147. *)
Definition updateScoreDisplay (t : Q) (s : State) : State := set_score (Some t) s.

(** game.js lines 37-48. *)
Definition resetGame (cv : Canvas.t) (s : State) : State :=
  let s := set_running false s in
  let s := set_lastTime 0 s in
  let s := set_elapsed 0 s in
  let s := set_spawnTimer 0 s in
  let s := set_spawnInterval 0.9 s in
  let s := set_blocks [] s in
  let s := set_player
             (Player.set_x (canvas_width cv / 2 - Player.w (player s) / 2) (player s)) s in
  let s := set_player
             (Player.set_y (canvas_height cv - Player.h (player s) - 20) (player s)) s in
  let s := set_keys (Keys.set_left false (Keys.set_right false (keys s))) s in
  updateScoreDisplay 0 s.

(** game.js lines 51-56.  [now] is the value of [performance.now()]; the
    boolean says that [requestAnimationFrame(loop)] was called. *)
Definition startGame (cv : Canvas.t) (now : Q) (s : State) : State * bool :=
  let s := resetGame cv s in
  let s := set_running true s in
  let s := set_lastTime now s in
  (s, true).

(** game.js lines 59-61. *)
Definition endGame (s : State) : State := set_running false s.

(** game.js lines 64-72. *)
Definition spawnBlock (cv : Canvas.t) (d : Draws) (s : State) : State :=
  let bw := Math_floor (rand (draw_width d) 30 70) in
  let bx := Math_floor (rand (draw_x d) 0 (canvas_width cv - bw)) in
  let speedBase := 120 + elapsed s * 20 in
  let b := {| Block.x := bx; Block.y := - bw; Block.w := bw; Block.h := bw;
              Block.speed := speedBase + rand (draw_speed d) 0 60;
              Block.shape := if Qlt_bool (draw_shape d) 0.5
                             then Block.rect else Block.circle |} in
  set_blocks (blocks s ++ [b]) s.

(** game.js line 97: [b.y += b.speed * dt]. *)
Definition fall (dt : Q) (b : Block.t) : Block.t :=
  Block.set_y (Block.y b + Block.speed b * dt) b.

(** game.js line 98: [b.y > canvas.height]. *)
Definition offscreen (cv : Canvas.t) (b : Block.t) : bool :=
  Qlt_bool (canvas_height cv) (Block.y b).

(** game.js lines 95-103, the loop over the blocks from the last index down:
    [blocksLoop cv dt n s] runs the iterations for [i = n-1, ..., 0].
    [blocks[i]] out of range is [undefined], and reading [b.y] from it
    throws: [None]. *)
Fixpoint blocksLoop (cv : Canvas.t) (dt : Q) (n : nat) (s : State) : option State :=
  match n with
  | O => Some s
  | S i =>
      match blocks s !! i with
      | None => None
      | Some b =>
          let b := fall dt b in
          let s := set_blocks (<[i := b]> (blocks s)) s in
          if offscreen cv b
          then blocksLoop cv dt i (set_blocks (delete i (blocks s)) s)
          else if checkCollision (player s) b
               then blocksLoop cv dt i (endGame s)
               else blocksLoop cv dt i s
      end
  end.

(** game.js lines 77-92: [update] up to the loop over the blocks. *)
Definition beforeBlocks (cv : Canvas.t) (d : Draws) (dt : Q) (s : State) : State :=
  let s := set_elapsed (elapsed s + dt) s in
  let s := set_spawnInterval (clamp (0.9 - elapsed s * 0.02) 0.28 0.9) s in
  let dir := (if Keys.right (keys s) then 1 else 0)
             - (if Keys.left (keys s) then 1 else 0) in
  let s := set_player
             (Player.set_x (Player.x (player s) + dir * Player.speed (player s) * dt)
                           (player s)) s in
  let s := set_player
             (Player.set_x (clamp (Player.x (player s)) 0
                                  (canvas_width cv - Player.w (player s)))
                           (player s)) s in
  let s := set_spawnTimer (spawnTimer s + dt) s in
  if Qle_bool (spawnInterval s) (spawnTimer s)
  then set_spawnTimer 0 (spawnBlock cv d s)
  else s.

(** game.js lines 75-104. *)
Definition update (cv : Canvas.t) (d : Draws) (dt : Q) (s : State) : option State :=
  let s := beforeBlocks cv d dt s in
  blocksLoop cv dt (length (blocks s)) s.

(** game.js lines 107-126. *)
Definition draw (cv : Canvas.t) (s : State) : list DrawCmd :=
  ClearRect 0 0 (canvas_width cv) (canvas_height cv)
  :: FillRect "#4ee3a4" (Player.x (player s)) (Player.y (player s))
              (Player.w (player s)) (Player.h (player s))
  :: map (fun b =>
            match Block.shape b with
            | Block.circle =>
                FillCircle "#e74c3c" (Block.x b + Block.w b / 2)
                           (Block.y b + Block.h b / 2) (Block.w b / 2)
            | Block.rect =>
                FillRect "#e74c3c" (Block.x b) (Block.y b) (Block.w b) (Block.h b)
            end)
         (blocks s).

(** game.js lines 129-137.  The boolean says that the callback registered
    itself again with [requestAnimationFrame]. *)
Definition loop (cv : Canvas.t) (d : Draws) (now : Q) (s : State) : option (State * bool) :=
  if negb (running s) then Some (s, false)
  else
    let dt := (now - lastTime s) / 1000 in
    let s := set_lastTime now s in
    match update cv d dt s with
    | None => None
    | Some s =>
        let s := set_screen (draw cv s) s in
        let s := updateScoreDisplay (elapsed s) s in
        Some (s, true)
    end.

(** game.js lines 153-156 and 157-160: the key handlers, given [e.key]. *)
Definition keydown (key : string) (s : State) : State :=
  let s := if (String.eqb key "ArrowLeft" || String.eqb key "a")%bool
           then set_keys (Keys.set_left true (keys s)) s else s in
  if (String.eqb key "ArrowRight" || String.eqb key "d")%bool
  then set_keys (Keys.set_right true (keys s)) s else s.

Definition keyup (key : string) (s : State) : State :=
  let s := if (String.eqb key "ArrowLeft" || String.eqb key "a")%bool
           then set_keys (Keys.set_left false (keys s)) s else s in
  if (String.eqb key "ArrowRight" || String.eqb key "d")%bool
  then set_keys (Keys.set_right false (keys s)) s else s.

(** game.js lines 163-165: the start button. *)
Definition clickStart (cv : Canvas.t) (now : Q) (s : State) : State * bool :=
  if negb (running s) then startGame cv now s else (s, false).

(** A frame callback for each element of [frames], in order; the result is
    the final state and whether any of the callbacks asked for another
    frame. *)
Fixpoint frames (cv : Canvas.t) (fs : list (Draws * Q)) (s : State) : option (State * bool) :=
  match fs with
  | [] => Some (s, false)
  | (d, now) :: fs =>
      match loop cv d now s with
      | None => None
      | Some (s, again) =>
          match frames cv fs s with
          | None => None
          | Some (s, again') => Some (s, (again || again')%bool)
          end
      end
  end.

(** The states the game can be in: after [resetGame], and from there by key
    events, clicks on the start button, calls of [update] with [dt >= 0]
    and frame callbacks whose timestamp is not before [lastTime]. *)
Inductive reachable (cv : Canvas.t) : State -> Prop :=
| reach_reset s0 : reachable cv (resetGame cv s0)
| reach_keydown key s : reachable cv s -> reachable cv (keydown key s)
| reach_keyup key s : reachable cv s -> reachable cv (keyup key s)
| reach_click now s : reachable cv s -> reachable cv (fst (clickStart cv now s))
| reach_update d dt s s' :
    reachable cv s -> 0 <= dt -> unit_draws d ->
    update cv d dt s = Some s' -> reachable cv s'
| reach_frame d now s r :
    reachable cv s -> lastTime s <= now -> unit_draws d ->
    loop cv d now s = Some r -> reachable cv (fst r).

(** ** Vocabulary of the statements *)

(** The blocks of [bs] after one frame of falling, without those that left
    the playfield: what a retain pass over the collection would keep. *)
Definition survivors (cv : Canvas.t) (dt : Q) (bs : list Block.t) : list Block.t :=
  List.filter (fun b => negb (offscreen cv b)) (map (fall dt) bs).

(** Some block of [bs] overlaps the player. *)
Definition anyHit (p : Player.t) (bs : list Block.t) : bool :=
  existsb (checkCollision p) bs.

(** Two rectangles with the same position and size. *)
Definition same_rect {A B : Type} `{Rect A} `{Rect B} (a : A) (b : B) : Prop :=
  rect_x a == rect_x b /\ rect_y a == rect_y b /\
  rect_w a == rect_w b /\ rect_h a == rect_h b.

(** Two rectangles with a gap between them (or just touching) along the x
    axis, respectively the y axis. *)
Definition apart_x {A B : Type} `{Rect A} `{Rect B} (a : A) (b : B) : Prop :=
  rect_x a + rect_w a <= rect_x b \/ rect_x b + rect_w b <= rect_x a.
Definition apart_y {A B : Type} `{Rect A} `{Rect B} (a : A) (b : B) : Prop :=
  rect_y a + rect_h a <= rect_y b \/ rect_y b + rect_h b <= rect_y a.

(** The test of line 89, on the values it reads. *)
Definition spawnDue (dt : Q) (s : State) : bool :=
  Qle_bool (clamp (0.9 - (elapsed s + dt) * 0.02) 0.28 0.9) (spawnTimer s + dt).

(** Where lines 83-85 leave the player. *)
Definition movedPlayer (cv : Canvas.t) (dt : Q) (s : State) : Player.t :=
  let dir := (if Keys.right (keys s) then 1 else 0)
             - (if Keys.left (keys s) then 1 else 0) in
  Player.set_x
    (clamp (Player.x (player s) + dir * Player.speed (player s) * dt) 0
           (canvas_width cv - Player.w (player s)))
    (player s).

(** What holds of every reachable state: time does not run backwards, the
    spawn timer is below the spawn interval, which is at most 0.9, the
    player is [20] above the bottom of the playfield, and every block
    falls at 120 px/s or more and has not left the playfield. *)
Definition healthy (cv : Canvas.t) (s : State) : Prop :=
  0 <= elapsed s /\
  spawnTimer s < spawnInterval s /\
  spawnInterval s <= 0.9 /\
  Player.y (player s) + Player.h (player s) == canvas_height cv - 20 /\
  Forall (fun b => 120 <= Block.speed b /\ Block.y b <= canvas_height cv) (blocks s).

(** ** The same lines in double precision *)

(** Lines 33, 97 and 141 of game.js in the arithmetic they run in: every
    [+], [-] and [*] rounds to the nearest binary64 number. *)
Module Double.
Import PrimFloat.

(** game.js line 33, with the result [r] of [Math.random()] as an
    argument. *)
Definition rand (r min max : float) : float := (r * (max - min) + min)%float.

(** game.js line 97: the new value of [b.y]. *)
Definition fall_y (y speed dt : float) : float := (y + speed * dt)%float.

(** game.js line 141, on the eight numbers it reads. *)
Definition checkCollision (ax ay aw ah bx by' bw bh : float) : bool :=
  (ltb ax (bx + bw) && ltb bx (ax + aw) && ltb ay (by' + bh) && ltb by' (ay + ah))%float.

(** The largest number [Math.random()] can return, and a step of time too
    short to move a block that is at [y = 639]. *)
Definition last_draw : float := (1 - 0x1p-53)%float.
End Double.

(** ** Events *)

(** What the page delivers to the script: key events (game.js lines
    153-160), clicks on the start button (lines 163-165, with the value of
    [performance.now()] at the click) and animation-frame callbacks (lines
    129-137, with the timestamp the browser passes and the draws a spawn in
    that frame would consume). *)
Inductive Event :=
| KeyDown (key : string)
| KeyUp (key : string)
| ClickStart (now : Q)
| Frame (d : Draws) (now : Q).

(** The listener an event runs.  The boolean says that the listener called
    [requestAnimationFrame]. *)
Definition dispatch (cv : Canvas.t) (e : Event) (s : State) : option (State * bool) :=
  match e with
  | KeyDown key => Some (keydown key s, false)
  | KeyUp key => Some (keyup key s, false)
  | ClickStart now => Some (clickStart cv now s)
  | Frame d now => loop cv d now s
  end.

(** The listeners of a sequence of events, one after the other. *)
Fixpoint run (cv : Canvas.t) (es : list Event) (s : State) : option State :=
  match es with
  | [] => Some s
  | e :: es =>
      match dispatch cv e s with
      | None => None
      | Some (s, _) => run cv es s
      end
  end.

Definition is_click (e : Event) : bool :=
  match e with
  | ClickStart _ => true
  | _ => false
  end.

(** The four keys the listeners react to. *)
Definition bound_key (key : string) : bool :=
  (String.eqb key "ArrowLeft" || String.eqb key "a"
   || String.eqb key "ArrowRight" || String.eqb key "d")%bool.

(** ** More vocabulary *)

(** A block as [spawnBlock] makes them and the loop moves them: a square
    whose side is an integer from 30 to 70 (70 is what the rounding of
    line 33 can give at a draw next to 1), at an integer x, not above its
    starting height [-w]; on a playfield more than 70 wide it lies between
    the left and the right edge. *)
Definition well_formed_block (cv : Canvas.t) (b : Block.t) : Prop :=
  (exists n : Z, Block.w b = inject_Z n /\ (30 <= n <= 70)%Z) /\
  Block.h b = Block.w b /\
  (exists m : Z, Block.x b = inject_Z m) /\
  - Block.w b <= Block.y b /\
  (70 < canvas_width cv ->
   0 <= Block.x b /\ Block.x b + Block.w b <= canvas_width cv).

(** More of what holds of every reachable state: the spawn timer is not
    negative, the spawn interval is the one that belongs to the elapsed
    time, the player is on the playfield when it fits, and the blocks are
    well formed. *)
Definition tidy (cv : Canvas.t) (s : State) : Prop :=
  0 <= spawnTimer s /\
  spawnInterval s == clamp (0.9 - elapsed s * 0.02) 0.28 0.9 /\
  (Player.w (player s) <= canvas_width cv ->
   0 <= Player.x (player s) /\
   Player.x (player s) <= canvas_width cv - Player.w (player s)) /\
  Forall (well_formed_block cv) (blocks s).

(** ** Concrete games, for the examples *)

(** A 480 x 640 canvas, one narrower than the player and one narrower than
    the widest block. *)
Definition arena : Canvas.t := Canvas.mk 480 640.
Definition slit : Canvas.t := Canvas.mk 20 640.

(** The game right after the script has loaded on a canvas. *)
Definition loaded (cv : Canvas.t) : State := resetGame cv (initial cv).

Definition some_draws : Draws := mkDraws 0.5 0.25 0.75 0.1.
Definition low_draws : Draws := mkDraws 0 0 0 0.

(** A running game with one block about to leave the playfield, one just
    above the player and one at the top. *)
Definition crowded : State :=
  set_running true
    (set_blocks [Block.mk 0 639 30 30 100 Block.rect;
                 Block.mk 226 600 30 30 100 Block.rect;
                 Block.mk 0 0 30 30 100 Block.circle]
                (loaded arena)).

(** A paddle-sized box, a box just right of it, a box of width zero and a
    box around that one. *)
Definition paddle_box : Box.t := Box.mk 100 200 28 18.
Definition right_box : Box.t := Box.mk 128 200 30 30.
Definition flat_box : Box.t := Box.mk 5 0 0 10.
Definition around_box : Box.t := Box.mk 0 0 10 10.

(** ** Boolean comparisons *)

Lemma Qlt_bool_true (x y : Q) : Qlt_bool x y = true <-> x < y.
Proof.
  unfold Qlt_bool. rewrite negb_true_iff. split.
  - intros E. apply Qnot_le_lt. intros Hle.
    apply Qle_bool_iff in Hle. congruence.
  - intros Hlt. destruct (Qle_bool y x) eqn:E; [|reflexivity].
    apply Qle_bool_iff in E. lra.
Qed.

Lemma Qlt_bool_false (x y : Q) : Qlt_bool x y = false <-> y <= x.
Proof.
  unfold Qlt_bool. rewrite negb_false_iff. apply Qle_bool_iff.
Qed.

Lemma Qle_bool_false (x y : Q) : Qle_bool x y = false <-> y < x.
Proof.
  rewrite <- Qlt_bool_true. unfold Qlt_bool.
  destruct (Qle_bool x y); simpl; split; congruence.
Qed.

(** Turn every boolean comparison among the hypotheses into its
    proposition. *)
Ltac qprop :=
  repeat match goal with
         | E : Qlt_bool _ _ = true |- _ => apply Qlt_bool_true in E
         | E : Qlt_bool _ _ = false |- _ => apply Qlt_bool_false in E
         | E : Qle_bool _ _ = true |- _ => apply Qle_bool_iff in E
         | E : Qle_bool _ _ = false |- _ => apply Qle_bool_false in E
         end.

(** Case analysis on the first comparison of the goal. *)
Ltac qcase :=
  match goal with
  | |- context [Qle_bool ?a ?b] => destruct (Qle_bool a b) eqn:?
  | |- context [Qlt_bool ?a ?b] => destruct (Qlt_bool a b) eqn:?
  end.

Lemma Math_max_spec (x y : Q) :
  (x <= y /\ Math_max x y = y) \/ (y < x /\ Math_max x y = x).
Proof. unfold Math_max. qcase; qprop; auto. Qed.

Lemma Math_min_spec (x y : Q) :
  (x <= y /\ Math_min x y = x) \/ (y < x /\ Math_min x y = y).
Proof. unfold Math_min. qcase; qprop; auto. Qed.

(** The four ways [Math.max(a, Math.min(b, v))] can go. *)
Ltac clamp_cases :=
  match goal with
  | |- context [Math_min ?p ?q] =>
      let E := fresh "E" in
      destruct (Math_min_spec p q) as [[? E]|[? E]]; rewrite E
  end;
  match goal with
  | |- context [Math_max ?p ?q] =>
      let E := fresh "E" in
      destruct (Math_max_spec p q) as [[? E]|[? E]]; rewrite E
  end.

(** [clamp v a b] lies in [[a, b]] as soon as the interval is not empty. *)
Lemma clamp_bounds (v a b : Q) : a <= b -> a <= clamp v a b /\ clamp v a b <= b.
Proof.
  intros Hab. unfold clamp. clamp_cases; lra.
Qed.

Lemma clamp_below (v a b : Q) : v <= a -> a <= b -> clamp v a b == a.
Proof.
  intros Hv Hab. unfold clamp. clamp_cases; lra.
Qed.

Lemma clamp_inside (v a b : Q) : a <= v -> v <= b -> clamp v a b == v.
Proof.
  intros Hv Hab. unfold clamp. clamp_cases; lra.
Qed.

(** With an empty interval ([b < a]) the result is the lower bound. *)
Lemma clamp_empty (v a b : Q) : b < a -> clamp v a b = a.
Proof.
  intros Hab. unfold clamp. clamp_cases; try reflexivity; lra.
Qed.

(** ** The collision test *)

Section Collision.
Context {A B : Type} `{Rect A} `{Rect B}.

Lemma checkCollision_true (a : A) (b : B) :
  checkCollision a b = true <->
  rect_x a < rect_x b + rect_w b /\ rect_x b < rect_x a + rect_w a /\
  rect_y a < rect_y b + rect_h b /\ rect_y b < rect_y a + rect_h a.
Proof.
  unfold checkCollision. rewrite !andb_true_iff, !Qlt_bool_true. tauto.
Qed.

Lemma checkCollision_sym (a : A) (b : B) : checkCollision a b = checkCollision b a.
Proof.
  unfold checkCollision.
  destruct (Qlt_bool (rect_x a) (rect_x b + rect_w b));
    destruct (Qlt_bool (rect_x b) (rect_x a + rect_w a));
    destruct (Qlt_bool (rect_y a) (rect_y b + rect_h b));
    destruct (Qlt_bool (rect_y b) (rect_y a + rect_h a)); reflexivity.
Qed.

Lemma checkCollision_false (a : A) (b : B) :
  ~ (rect_x a < rect_x b + rect_w b /\ rect_x b < rect_x a + rect_w a /\
     rect_y a < rect_y b + rect_h b /\ rect_y b < rect_y a + rect_h a) ->
  checkCollision a b = false.
Proof.
  intros Hn. destruct (checkCollision a b) eqn:E; [|reflexivity].
  apply checkCollision_true in E. contradiction.
Qed.
End Collision.

(** ** The loop over the blocks *)

Lemma blocksLoop_S (cv : Canvas.t) (dt : Q) (i : nat) (s : State) :
  blocksLoop cv dt (S i) s =
  match blocks s !! i with
  | None => None
  | Some b =>
      let s1 := set_blocks (<[i := fall dt b]> (blocks s)) s in
      if offscreen cv (fall dt b)
      then blocksLoop cv dt i (set_blocks (delete i (blocks s1)) s1)
      else if checkCollision (player s1) (fall dt b)
           then blocksLoop cv dt i (endGame s1)
           else blocksLoop cv dt i s1
  end.
Proof. reflexivity. Qed.

Lemma insert_middle {X : Type} (pre post : list X) (a b : X) :
  <[length pre := b]> (pre ++ a :: post) = pre ++ b :: post.
Proof. induction pre as [|c pre IH]; simpl; [reflexivity|]. now f_equal. Qed.

Lemma survivors_app (cv : Canvas.t) (dt : Q) (l k : list Block.t) :
  survivors cv dt (l ++ k) = survivors cv dt l ++ survivors cv dt k.
Proof. unfold survivors. now rewrite map_app, List.filter_app. Qed.

Lemma survivors_one (cv : Canvas.t) (dt : Q) (b : Block.t) :
  survivors cv dt [b] = if offscreen cv (fall dt b) then [] else [fall dt b].
Proof. unfold survivors; simpl. now destruct (offscreen cv (fall dt b)). Qed.

Lemma anyHit_app (p : Player.t) (l k : list Block.t) :
  anyHit p (l ++ k) = (anyHit p l || anyHit p k)%bool.
Proof. apply existsb_app. Qed.

(** Run on the first [length pre] blocks, the loop advances them, drops
    those that left the playfield, keeps the blocks behind them as they
    are, and ends the game when one of the kept ones overlaps the player. *)
Lemma blocksLoop_app (cv : Canvas.t) (dt : Q) (pre : list Block.t) :
  forall (post : list Block.t) (s : State),
    blocks s = pre ++ post ->
    blocksLoop cv dt (length pre) s =
    Some (set_running (running s && negb (anyHit (player s) (survivors cv dt pre)))
            (set_blocks (survivors cv dt pre ++ post) s)).
Proof.
  induction pre as [|b pre IH] using rev_ind; intros post s Hbs.
  - simpl in *. rewrite andb_true_r.
    destruct s; simpl in *; subst; reflexivity.
  - rewrite length_app, Nat.add_1_r, blocksLoop_S.
    rewrite <- app_assoc in Hbs; simpl in Hbs.
    rewrite Hbs, list_lookup_middle by reflexivity.
    cbv zeta. rewrite survivors_app, survivors_one, anyHit_app.
    destruct (offscreen cv (fall dt b)) eqn:Hoff.
    + rewrite (IH post).
      * simpl. rewrite orb_false_r, app_nil_r. reflexivity.
      * simpl. rewrite insert_middle. apply delete_middle.
    + simpl player. destruct (checkCollision (player s) (fall dt b)) eqn:Hhit.
      * rewrite (IH (fall dt b :: post)).
        -- simpl. rewrite Hhit, orb_true_r, andb_false_r, <- app_assoc.
           reflexivity.
        -- simpl. apply insert_middle.
      * rewrite (IH (fall dt b :: post)).
        -- simpl. rewrite Hhit, !orb_false_r, <- app_assoc. reflexivity.
        -- simpl. apply insert_middle.
Qed.

(** The loop as [update] runs it, over the whole collection: it never reads
    outside the array, and it is a retain pass plus one collision flag. *)
Lemma blocksLoop_all (cv : Canvas.t) (dt : Q) (s : State) :
  blocksLoop cv dt (length (blocks s)) s =
  Some (set_running (running s && negb (anyHit (player s) (survivors cv dt (blocks s))))
          (set_blocks (survivors cv dt (blocks s)) s)).
Proof.
  rewrite (blocksLoop_app cv dt (blocks s) [] s) by (now rewrite app_nil_r).
  now rewrite app_nil_r.
Qed.

(** [update] is the straight-line part followed by that pass. *)
Lemma update_eq (cv : Canvas.t) (d : Draws) (dt : Q) (s : State) :
  update cv d dt s =
  let s1 := beforeBlocks cv d dt s in
  Some (set_running (running s1 && negb (anyHit (player s1) (survivors cv dt (blocks s1))))
          (set_blocks (survivors cv dt (blocks s1)) s1)).
Proof. unfold update. cbv zeta. apply blocksLoop_all. Qed.

(** ** The straight-line part of [update] *)

Section BeforeBlocks.
Variables (cv : Canvas.t) (d : Draws) (dt : Q) (s : State).

Lemma beforeBlocks_running : running (beforeBlocks cv d dt s) = running s.
Proof. unfold beforeBlocks; cbv zeta; simpl. now qcase. Qed.

Lemma beforeBlocks_elapsed : elapsed (beforeBlocks cv d dt s) = elapsed s + dt.
Proof. unfold beforeBlocks; cbv zeta; simpl. now qcase. Qed.

Lemma beforeBlocks_spawnInterval :
  spawnInterval (beforeBlocks cv d dt s) = clamp (0.9 - (elapsed s + dt) * 0.02) 0.28 0.9.
Proof. unfold beforeBlocks; cbv zeta; simpl. now qcase. Qed.

Lemma beforeBlocks_player : player (beforeBlocks cv d dt s) = movedPlayer cv dt s.
Proof. unfold beforeBlocks, movedPlayer; cbv zeta; simpl. now qcase. Qed.

Lemma beforeBlocks_keys : keys (beforeBlocks cv d dt s) = keys s.
Proof. unfold beforeBlocks; cbv zeta; simpl. now qcase. Qed.

Lemma beforeBlocks_spawnTimer :
  spawnTimer (beforeBlocks cv d dt s) = if spawnDue dt s then 0 else spawnTimer s + dt.
Proof. unfold beforeBlocks, spawnDue; cbv zeta; simpl. now qcase. Qed.

Lemma beforeBlocks_blocks :
  blocks (beforeBlocks cv d dt s) =
  if spawnDue dt s
  then blocks (spawnBlock cv d (set_elapsed (elapsed s + dt) s))
  else blocks s.
Proof. unfold beforeBlocks, spawnDue; cbv zeta; simpl. now qcase. Qed.
End BeforeBlocks.

(** The fields of the state [update] returns. *)
Lemma update_fields (cv : Canvas.t) (d : Draws) (dt : Q) (s : State) :
  exists s', update cv d dt s = Some s' /\
    elapsed s' = elapsed s + dt /\
    spawnInterval s' = clamp (0.9 - (elapsed s + dt) * 0.02) 0.28 0.9 /\
    spawnTimer s' = (if spawnDue dt s then 0 else spawnTimer s + dt) /\
    player s' = movedPlayer cv dt s /\
    keys s' = keys s /\
    blocks s' = survivors cv dt (blocks (beforeBlocks cv d dt s)) /\
    running s' = (running s && negb (anyHit (player s') (blocks s')))%bool.
Proof.
  rewrite update_eq. cbv zeta.
  rewrite <- (beforeBlocks_spawnInterval cv d dt s), <- (beforeBlocks_spawnTimer cv d dt s),
    <- (beforeBlocks_elapsed cv d dt s), <- (beforeBlocks_player cv d dt s),
    <- (beforeBlocks_keys cv d dt s), <- (beforeBlocks_running cv d dt s).
  generalize (beforeBlocks cv d dt s). intros s1.
  eexists; split; [reflexivity|]. destruct s1. repeat split; reflexivity.
Qed.

(** ** The collision test: symmetry, identical rectangles, gaps *)

(** C5 (as amended): [checkCollision] is symmetric; it returns true for two
    identical rectangles whenever [x < x + w] and [y < y + h], the sums the
    test itself computes (exactly, this is: width and height are strictly
    positive; in double precision the extent must also be large enough to
    move the sum); and it returns false for two rectangles with a gap
    between them (touching included) on the x axis or on the y axis. *)
Theorem checkCollision_sym_copy_gap {A B : Type} `{Rect A} `{Rect B} (a : A) (b : B) :
  checkCollision a b = checkCollision b a /\
  (same_rect a b ->
   rect_x a < rect_x a + rect_w a -> rect_y a < rect_y a + rect_h a ->
   checkCollision a b = true) /\
  (apart_x a b \/ apart_y a b -> checkCollision a b = false).
Proof.
  split; [apply checkCollision_sym|]. split.
  - intros (Hx & Hy & Hw & Hh) Hpw Hph.
    apply checkCollision_true. repeat split; lra.
  - intros Hgap. apply checkCollision_false. unfold apart_x, apart_y in Hgap.
    intros (? & ? & ? & ?). destruct Hgap as [[?|?]|[?|?]]; lra.
Qed.

(** The three parts of C5 at a paddle-sized box, a copy of it and the box
    that touches it on the right. *)
Lemma checkCollision_sym_copy_gap_witness :
  checkCollision paddle_box right_box = checkCollision right_box paddle_box /\
  checkCollision paddle_box paddle_box = true /\
  checkCollision paddle_box right_box = false.
Proof.
  destruct (checkCollision_sym_copy_gap paddle_box paddle_box) as (_ & Hcopy & _).
  destruct (checkCollision_sym_copy_gap paddle_box right_box) as (Hsym & _ & Hgap).
  split; [exact Hsym|]. split.
  - apply Hcopy; [repeat split; reflexivity|reflexivity|reflexivity].
  - apply Hgap. left. left. vm_compute. discriminate.
Defined.

(** C5 as stated fails: a rectangle of width zero is identical to itself
    and [checkCollision] returns false for it and itself. *)
Lemma checkCollision_identical_flat_counterexample :
  same_rect flat_box flat_box /\ checkCollision flat_box flat_box = false.
Proof. split; [repeat split; reflexivity|reflexivity]. Qed.

(** C10 (as amended): for two identical rectangles, [checkCollision]
    returns false whenever their width or their height is zero; so it can
    return true for identical rectangles only when both are strictly
    positive. *)
Theorem checkCollision_degenerate_copy {A B : Type} `{Rect A} `{Rect B} (a : A) (b : B) :
  same_rect a b ->
  (rect_w a == 0 \/ rect_h a == 0 -> checkCollision a b = false) /\
  (checkCollision a b = true -> 0 < rect_w a /\ 0 < rect_h a).
Proof.
  intros (Hx & Hy & Hw & Hh). split.
  - intros Hflat. apply checkCollision_false. intros (? & ? & ? & ?).
    destruct Hflat; lra.
  - rewrite checkCollision_true.
    intros (? & ? & ? & ?). split; lra.
Qed.

Lemma checkCollision_degenerate_copy_witness :
  same_rect flat_box flat_box /\ checkCollision flat_box flat_box = false.
Proof.
  assert (Hsame : same_rect flat_box flat_box) by (repeat split; reflexivity).
  split; [exact Hsame|].
  apply (proj1 (checkCollision_degenerate_copy flat_box flat_box Hsame)).
  left. reflexivity.
Defined.

(** C10 as stated fails: a rectangle of width zero that lies inside another
    rectangle does overlap it. *)
Lemma checkCollision_flat_inside_counterexample :
  rect_w flat_box == 0 /\ checkCollision flat_box around_box = true.
Proof. split; reflexivity. Qed.

(** ** The player stays on the playfield *)

(** C1 (as amended): whenever the playfield is at least as wide as the
    player, [update] returns, for every [dt], every combination of the
    input flags and every starting position, with
    [0 <= player.x <= playfieldWidth - player.w]. *)
Theorem update_player_within_playfield (cv : Canvas.t) (d : Draws) (dt : Q) (s : State) :
  Player.w (player s) <= canvas_width cv ->
  exists s', update cv d dt s = Some s' /\
    0 <= Player.x (player s') /\
    Player.x (player s') <= canvas_width cv - Player.w (player s').
Proof.
  intros Hfit.
  destruct (update_fields cv d dt s) as (s' & Hu & _ & _ & _ & Hp & _).
  exists s'. split; [exact Hu|]. rewrite Hp. unfold movedPlayer. simpl.
  apply clamp_bounds. lra.
Qed.

(** One second of "move right" from the centre of the 480 wide canvas. *)
Lemma update_player_within_playfield_witness :
  exists s', update arena low_draws 1 (keydown "ArrowRight" (loaded arena)) = Some s' /\
    0 <= Player.x (player s') /\
    Player.x (player s') <= canvas_width arena - Player.w (player s').
Proof.
  apply (update_player_within_playfield arena low_draws 1
           (keydown "ArrowRight" (loaded arena))).
  vm_compute. discriminate.
Defined.

(** C1 as stated fails on a playfield narrower than the player: the clamp
    of line 85 then has an empty interval and leaves the player at 0, to the
    right of [playfieldWidth - player.w]. *)
Lemma update_player_narrow_playfield_counterexample :
  exists s', update slit low_draws 0.016 (loaded slit) = Some s' /\
    0 <= 0.016 /\
    ~ (0 <= Player.x (player s') /\
       Player.x (player s') <= canvas_width slit - Player.w (player s')).
Proof.
  eexists. split; [vm_compute; reflexivity|].
  split; [vm_compute; discriminate|].
  intros [_ Hle]. vm_compute in Hle. apply Hle. reflexivity.
Qed.

(** ** The spawn interval *)

(** C2: the spawn interval [update] recomputes is
    [clamp(0.9 - elapsed*0.02, 0.28, 0.9)] at the new elapsed time; it lies
    in [[0.28, 0.9]], it is 0.9 when the elapsed time is 0 and it is the
    floor 0.28 whenever the elapsed time is at least 31. *)
Theorem update_spawnInterval (cv : Canvas.t) (d : Draws) (dt : Q) (s : State) :
  exists s', update cv d dt s = Some s' /\
    elapsed s' = elapsed s + dt /\
    spawnInterval s' = clamp (0.9 - elapsed s' * 0.02) 0.28 0.9 /\
    (0.28 <= spawnInterval s' /\ spawnInterval s' <= 0.9) /\
    (elapsed s' == 0 -> spawnInterval s' == 0.9) /\
    (31 <= elapsed s' -> spawnInterval s' == 0.28).
Proof.
  destruct (update_fields cv d dt s) as (s' & Hu & He & Hi & _).
  exists s'. rewrite Hi, He. repeat split; try assumption.
  - apply clamp_bounds. lra.
  - apply clamp_bounds. lra.
  - intros H0. rewrite clamp_inside; lra.
  - intros H31. apply clamp_below; lra.
Qed.

(** The frame that brings the elapsed time from 30 to 31. *)
Lemma update_spawnInterval_witness :
  exists s', update arena low_draws 1 (set_elapsed 30 (loaded arena)) = Some s' /\
    spawnInterval s' == 0.28.
Proof.
  destruct (update_spawnInterval arena low_draws 1 (set_elapsed 30 (loaded arena)))
    as (s' & Hu & He & _ & _ & _ & Hfloor).
  exists s'. split; [exact Hu|]. apply Hfloor. rewrite He.
  vm_compute. discriminate.
Defined.

(** ** Spawning *)

Lemma Qfloor_ge (z : Z) (v : Q) : inject_Z z <= v -> (z <= Qfloor v)%Z.
Proof.
  intros Hle. rewrite <- (Qfloor_Z z). now apply Qfloor_resp_le.
Qed.

Lemma Qfloor_lt (z : Z) (v : Q) : v < inject_Z z -> (Qfloor v < z)%Z.
Proof.
  intros Hlt. rewrite Zlt_Qlt.
  apply Qle_lt_trans with v; [apply Qfloor_le|exact Hlt].
Qed.

Lemma Math_floor_le (v : Q) : Math_floor v <= v.
Proof. apply Qfloor_le. Qed.

Lemma Math_floor_ge (z : Z) (v : Q) : inject_Z z <= v -> inject_Z z <= Math_floor v.
Proof.
  intros Hle. unfold Math_floor. rewrite <- Zle_Qle. now apply Qfloor_ge.
Qed.

Lemma canvas_height_nonneg (cv : Canvas.t) : 0 <= canvas_height cv.
Proof.
  unfold canvas_height. change 0 with (inject_Z 0). rewrite <- Zle_Qle. lia.
Qed.

(** [rand] stays in [[min, max)] when the interval is not empty. *)
Lemma rand_range (r lo hi : Q) :
  unit_draw r -> lo < hi -> lo <= rand r lo hi /\ rand r lo hi < hi.
Proof.
  intros [H0 H1] Hlt. unfold rand. split; nra.
Qed.




(** ** Reset *)

(** C7: [resetGame] is idempotent, and the state it produces has
    [running = false], [elapsed = 0], [spawnTimer = 0],
    [spawnInterval = 0.9], no blocks, the player horizontally centred and 20
    above the bottom of the playfield, both input flags cleared and 0 on the
    score label. *)
Theorem resetGame_idempotent (cv : Canvas.t) (s : State) :
  resetGame cv (resetGame cv s) = resetGame cv s /\
  running (resetGame cv s) = false /\
  elapsed (resetGame cv s) = 0 /\
  spawnTimer (resetGame cv s) = 0 /\
  spawnInterval (resetGame cv s) = 0.9 /\
  blocks (resetGame cv s) = [] /\
  Player.x (player (resetGame cv s))
    = canvas_width cv / 2 - Player.w (player (resetGame cv s)) / 2 /\
  Player.x (player (resetGame cv s)) + Player.w (player (resetGame cv s)) / 2
    == canvas_width cv / 2 /\
  Player.y (player (resetGame cv s))
    = canvas_height cv - Player.h (player (resetGame cv s)) - 20 /\
  keys (resetGame cv s) = Keys.mk false false /\
  score (resetGame cv s) = Some 0.
Proof.
  destruct s as [r lt e st si bs [pw ph px py ps pv] [kl kr] sc scr].
  unfold resetGame, updateScoreDisplay. simpl.
  repeat split; try reflexivity. field.
Qed.

(** ** After the game is over *)

Lemma loop_not_running (cv : Canvas.t) (d : Draws) (now : Q) (s : State) :
  running s = false -> loop cv d now s = Some (s, false).
Proof. intros Hr. unfold loop. now rewrite Hr. Qed.

(** C8: once [running] is false, a frame callback returns the state it was
    given, untouched, without asking for another frame; and so does any
    sequence of frame callbacks. *)
Theorem frames_after_game_over (cv : Canvas.t) (d : Draws) (now : Q)
    (fs : list (Draws * Q)) (s : State) :
  running s = false ->
  loop cv d now s = Some (s, false) /\ frames cv fs s = Some (s, false).
Proof.
  intros Hr. split; [now apply loop_not_running|].
  induction fs as [|[d' now'] fs IH]; simpl; [reflexivity|].
  now rewrite loop_not_running, IH.
Qed.

(** Three frame callbacks on the crowded game after it has ended. *)
Lemma frames_after_game_over_witness :
  loop arena some_draws 16 (endGame crowded) = Some (endGame crowded, false) /\
  frames arena [(some_draws, 16); (some_draws, 33); (some_draws, 50)] (endGame crowded)
  = Some (endGame crowded, false).
Proof.
  apply (frames_after_game_over arena some_draws 16
           [(some_draws, 16); (some_draws, 33); (some_draws, 50)] (endGame crowded)).
  reflexivity.
Defined.

(** ** Reachable states are healthy *)

Lemma healthy_same (cv : Canvas.t) (s t : State) :
  elapsed t = elapsed s -> spawnTimer t = spawnTimer s ->
  spawnInterval t = spawnInterval s -> player t = player s ->
  blocks t = blocks s -> healthy cv s -> healthy cv t.
Proof.
  unfold healthy. intros -> -> -> -> ->. trivial.
Qed.

Lemma healthy_resetGame (cv : Canvas.t) (s0 : State) : healthy cv (resetGame cv s0).
Proof.
  unfold healthy, resetGame, updateScoreDisplay. simpl.
  repeat split; try lra. constructor.
Qed.

Lemma healthy_keydown (cv : Canvas.t) (key : string) (s : State) :
  healthy cv s -> healthy cv (keydown key s).
Proof.
  apply healthy_same; unfold keydown;
    destruct (String.eqb key "ArrowLeft" || String.eqb key "a")%bool;
    destruct (String.eqb key "ArrowRight" || String.eqb key "d")%bool; reflexivity.
Qed.

Lemma healthy_keyup (cv : Canvas.t) (key : string) (s : State) :
  healthy cv s -> healthy cv (keyup key s).
Proof.
  apply healthy_same; unfold keyup;
    destruct (String.eqb key "ArrowLeft" || String.eqb key "a")%bool;
    destruct (String.eqb key "ArrowRight" || String.eqb key "d")%bool; reflexivity.
Qed.

Lemma healthy_clickStart (cv : Canvas.t) (now : Q) (s : State) :
  healthy cv s -> healthy cv (fst (clickStart cv now s)).
Proof.
  intros Hs. unfold clickStart, startGame. destruct (running s); [exact Hs|].
  cbv zeta. cbn [negb fst].
  pose proof (healthy_resetGame cv s) as Hr.
  revert Hr. generalize (resetGame cv s). intros r Hr.
  apply healthy_same with r; try reflexivity. exact Hr.
Qed.

(** The block [spawnBlock] pushes starts above the playfield and, once the
    elapsed time is not negative, falls at 120 px/s or more. *)
Lemma spawnBlock_fast (cv : Canvas.t) (d : Draws) (s : State) :
  unit_draws d -> 0 <= elapsed s ->
  exists b, blocks (spawnBlock cv d s) = blocks s ++ [b] /\
            120 <= Block.speed b /\ Block.y b <= 0.
Proof.
  intros (Hw & _ & Hs & _) He. unfold spawnBlock. cbv zeta.
  eexists. split; [reflexivity|]. simpl.
  destruct (rand_range (draw_speed d) 0 60 Hs); [lra|].
  destruct (rand_range (draw_width d) 30 70 Hw) as [Hlo _]; [lra|].
  pose proof (Math_floor_ge 30 (rand (draw_width d) 30 70) Hlo) as Hbw.
  change (inject_Z 30) with 30 in Hbw.
  split; lra.
Qed.

(** Before the loop of a frame with [dt >= 0], a healthy game has only
    blocks that fall at 120 px/s or more and have not left the playfield,
    the one just spawned included. *)
Lemma beforeBlocks_blocks_ok (cv : Canvas.t) (d : Draws) (dt : Q) (s : State) :
  healthy cv s -> 0 <= dt -> unit_draws d ->
  Forall (fun b => 120 <= Block.speed b /\ Block.y b <= canvas_height cv)
         (blocks (beforeBlocks cv d dt s)).
Proof.
  intros (He & _ & _ & _ & Hbs) Hdt Hd. rewrite beforeBlocks_blocks.
  destruct (spawnDue dt s); [|exact Hbs].
  destruct (spawnBlock_fast cv d (set_elapsed (elapsed s + dt) s) Hd)
    as (b & -> & Hb & Hy); [simpl; lra|].
  apply Forall_app. split; [exact Hbs|]. constructor; [|constructor].
  pose proof (canvas_height_nonneg cv). split; lra.
Qed.

(** The blocks the loop keeps are on the playfield, and they fall as fast as
    before. *)
Lemma survivors_Forall (cv : Canvas.t) (dt : Q) (bs : list Block.t) :
  Forall (fun b => 120 <= Block.speed b) bs ->
  Forall (fun b => 120 <= Block.speed b /\ Block.y b <= canvas_height cv)
         (survivors cv dt bs).
Proof.
  induction 1 as [|b bs Hb Hbs IH]; [constructor|].
  change (b :: bs) with ([b] ++ bs).
  rewrite survivors_app, survivors_one.
  destruct (offscreen cv (fall dt b)) eqn:Hoff; simpl; [exact IH|].
  constructor; [|exact IH]. unfold offscreen in Hoff. qprop.
  split; [exact Hb|exact Hoff].
Qed.

Lemma survivors_In (cv : Canvas.t) (dt : Q) (bs : list Block.t) (b' : Block.t) :
  In b' (survivors cv dt bs) <->
  exists b, In b bs /\ b' = fall dt b /\ Block.y b' <= canvas_height cv.
Proof.
  unfold survivors. rewrite List.filter_In, List.in_map_iff.
  unfold offscreen. rewrite negb_true_iff, Qlt_bool_false. split.
  - intros [(b & <- & Hin) Hy]. now exists b.
  - intros (b & Hin & -> & Hy). split; [now exists b|exact Hy].
Qed.

Lemma healthy_update (cv : Canvas.t) (d : Draws) (dt : Q) (s s' : State) :
  healthy cv s -> 0 <= dt -> unit_draws d ->
  update cv d dt s = Some s' -> healthy cv s'.
Proof.
  intros Hs Hdt Hd Hu.
  pose proof (beforeBlocks_blocks_ok cv d dt s Hs Hdt Hd) as Hok.
  destruct Hs as (He & Ht & Hi & Hp & _).
  destruct (update_fields cv d dt s)
    as (t & Hu' & Het & Hit & Htt & Hpt & _ & Hbt & _).
  rewrite Hu in Hu'. injection Hu' as <-.
  unfold healthy. rewrite Het, Hit, Htt, Hpt, Hbt.
  destruct (clamp_bounds (0.9 - (elapsed s + dt) * 0.02) 0.28 0.9) as [Hlo Hhi]; [lra|].
  split; [lra|]. split.
  { unfold spawnDue. qcase; qprop; lra. }
  split; [exact Hhi|]. split; [exact Hp|].
  apply survivors_Forall.
  eapply Forall_impl; [exact Hok|]. intros b [Hb _]. exact Hb.
Qed.

Lemma healthy_loop (cv : Canvas.t) (d : Draws) (now : Q) (s : State) (r : State * bool) :
  healthy cv s -> lastTime s <= now -> unit_draws d ->
  loop cv d now s = Some r -> healthy cv (fst r).
Proof.
  intros Hs Hnow Hd. unfold loop. destruct (running s); simpl.
  - destruct (update cv d ((now - lastTime s) / 1000) (set_lastTime now s)) as [t|] eqn:Hu;
      [|discriminate].
    intros [= <-]. simpl.
    apply healthy_same with t; try reflexivity.
    apply (healthy_update cv d ((now - lastTime s) / 1000) (set_lastTime now s)); trivial.
    apply Qle_shift_div_l; lra.
  - intros [= <-]. exact Hs.
Qed.

Lemma reachable_healthy (cv : Canvas.t) (s : State) : reachable cv s -> healthy cv s.
Proof.
  induction 1 as [s0|key s _ IH|key s _ IH|now s _ IH|d dt s s' _ IH Hdt Hd Hu
                 |d now s r _ IH Hnow Hd Hl].
  - apply healthy_resetGame.
  - now apply healthy_keydown.
  - now apply healthy_keyup.
  - now apply healthy_clickStart.
  - now apply (healthy_update cv d dt s).
  - now apply (healthy_loop cv d now s).
Qed.

(** ** The spawn timer *)

(** C9: in every reachable state the spawn timer is strictly below the
    spawn interval, hence strictly below 0.9; and from a reachable state
    every [update(dt)] with [dt >= 0] returns in a state where this holds
    again. *)
Theorem spawnTimer_below_spawnInterval (cv : Canvas.t) (s : State) :
  reachable cv s ->
  (spawnTimer s < spawnInterval s /\ spawnTimer s < 0.9) /\
  (forall (d : Draws) (dt : Q), 0 <= dt ->
     exists s', update cv d dt s = Some s' /\
       spawnTimer s' < spawnInterval s' /\ spawnTimer s' < 0.9).
Proof.
  intros Hr. destruct (reachable_healthy cv s Hr) as (_ & Ht & Hi & _).
  split; [split; lra|].
  intros d dt Hdt.
  destruct (update_fields cv d dt s) as (s' & Hu & _ & Hit & Htt & _).
  exists s'. split; [exact Hu|]. rewrite Hit, Htt.
  destruct (clamp_bounds (0.9 - (elapsed s + dt) * 0.02) 0.28 0.9) as [Hlo Hhi]; [lra|].
  unfold spawnDue. qcase; qprop; split; lra.
Qed.

(** The first second of a game: a block is spawned and the timer starts
    again from 0. *)
Lemma spawnTimer_below_spawnInterval_witness :
  exists s', update arena some_draws 1 (loaded arena) = Some s' /\
    spawnTimer s' < spawnInterval s' /\ spawnTimer s' < 0.9.
Proof.
  apply (spawnTimer_below_spawnInterval arena (loaded arena)
           (reach_reset arena (initial arena))).
  vm_compute. discriminate.
Defined.

(** ** Falling blocks *)

Lemma fall_y (dt : Q) (b : Block.t) :
  Block.y (fall dt b) = Block.y b + Block.speed b * dt.
Proof. reflexivity. Qed.




(** ** Where double precision differs *)

Section DoublePrecision.
Import PrimFloat.


(** At the largest draw, [rand(30, 70)] is 70: a block can be 70 wide. *)
Example double_rand_reaches_max :
  PrimFloat.ltb Double.last_draw 1 = true /\
  Double.rand Double.last_draw 30 70 = 70%float.
Proof. split; vm_compute; reflexivity. Qed.

(** Far from the origin a unit square does not overlap its own copy:
    [2^53 + 1] rounds to [2^53]. *)
Example double_copy_far_away :
  Double.checkCollision 0x1p53 0 1 1 0x1p53 0 1 1 = false /\
  Double.checkCollision 0 0 1 1 0 0 1 1 = true.
Proof. split; vm_compute; reflexivity. Qed.

End DoublePrecision.

(** ** Collisions end the run *)

(** C3: [update] returns with every block of the collection advanced
    (the loop does not stop at a collision) and those that left the
    playfield removed; [running] is false when a block of the collection then
    overlaps the player, and unchanged when none does; and in a reachable
    state every advanced block that overlaps the player is still on the
    playfield, hence in the collection. *)
Theorem update_collision_ends_run (cv : Canvas.t) (d : Draws) (dt : Q) (s : State) :
  exists s', update cv d dt s = Some s' /\
    blocks s' = survivors cv dt (blocks (beforeBlocks cv d dt s)) /\
    ((exists b, In b (blocks s') /\ checkCollision (player s') b = true) ->
     running s' = false) /\
    ((forall b, In b (blocks s') -> checkCollision (player s') b = false) ->
     running s' = running s) /\
    (reachable cv s ->
     forall b, In b (blocks (beforeBlocks cv d dt s)) ->
               checkCollision (player s') (fall dt b) = true ->
               In (fall dt b) (blocks s')).
Proof.
  destruct (update_fields cv d dt s) as (s' & Hu & _ & _ & _ & Hp & _ & Hbs & Hrun).
  exists s'. split; [exact Hu|]. split; [exact Hbs|]. split; [|split].
  - intros Hhit. apply existsb_exists in Hhit.
    rewrite Hrun. unfold anyHit. rewrite Hhit. apply andb_false_r.
  - intros Hfree. rewrite Hrun.
    destruct (anyHit (player s') (blocks s')) eqn:Hany; [|apply andb_true_r].
    apply existsb_exists in Hany. destruct Hany as (b & Hin & Hb).
    rewrite (Hfree b Hin) in Hb. discriminate.
  - intros Hr b Hin Hhit.
    destruct (reachable_healthy cv s Hr) as (_ & _ & _ & Hy & _).
    rewrite Hbs. apply survivors_In. exists b. split; [exact Hin|].
    split; [reflexivity|].
    apply checkCollision_true in Hhit. destruct Hhit as (_ & _ & _ & Hbelow).
    rewrite Hp in Hbelow.
    change (Block.y (fall dt b) < Player.y (player s) + Player.h (player s)) in Hbelow.
    lra.
Qed.

(** A frame of the crowded game: the block above the player reaches it, the
    game ends, and the two blocks still on the playfield are both kept. *)
Lemma update_collision_ends_run_witness :
  exists s', update arena some_draws 0.02 crowded = Some s' /\
    running s' = false /\ length (blocks s') = 2%nat.
Proof.
  destruct (update_collision_ends_run arena some_draws 0.02 crowded)
    as (s' & Hu & Hbs & Hend & _).
  exists s'. split; [exact Hu|].
  assert (Hs' : update arena some_draws 0.02 crowded = Some s') by exact Hu.
  vm_compute in Hs'. injection Hs' as Hs'. split.
  - apply Hend. rewrite <- Hs'. eexists. split; [left; reflexivity|reflexivity].
  - rewrite Hbs. reflexivity.
Defined.

(** ** Scenarios *)

(** [resetGame] then [update(1.0)] with no key held: the player has not
    moved, one second has elapsed and the spawn interval is 0.88. *)
Example scenario_first_second :
  exists s', update arena some_draws 1 (loaded arena) = Some s' /\
    Player.x (player s') == Player.x (player (loaded arena)) /\
    elapsed s' == 1 /\ spawnInterval s' == 0.88.
Proof.
  eexists. split; [vm_compute; reflexivity|].
  repeat split; vm_compute; reflexivity.
Qed.

(** "Move right" held for one second from the centre of the 480 wide
    canvas: 226 + 280 exceeds 480 - 28, so the player stops at 452. *)
Example scenario_move_right :
  exists s', update arena some_draws 1 (keydown "d" (loaded arena)) = Some s' /\
    Player.x (player (loaded arena)) == 226 /\
    Player.x (player s') == 452.
Proof.
  eexists. split; [vm_compute; reflexivity|].
  split; vm_compute; reflexivity.
Qed.

(** A block at [y = playfieldHeight - 1] with speed 100 crosses to
    [playfieldHeight + 1] in a frame of 0.02 s and is removed in that
    frame; the two other blocks of the crowded game stay. *)
Example scenario_block_leaves :
  exists s', update arena some_draws 0.02 crowded = Some s' /\
    blocks s' = [fall 0.02 (Block.mk 226 600 30 30 100 Block.rect);
                 fall 0.02 (Block.mk 0 0 30 30 100 Block.circle)].
Proof.
  destruct (update_fields arena some_draws 0.02 crowded)
    as (s' & Hu & _ & _ & _ & _ & _ & Hbs & _).
  exists s'. split; [exact Hu|]. rewrite Hbs. reflexivity.
Qed.

(** ** More about [clamp] *)

(** X1: with [a <= b], [clamp v a b] is [v] inside [[a, b]], [a] below it
    and [b] above it; with [b < a] it is [a], whatever [v] is. *)
Theorem clamp_characterised (v a b : Q) :
  (a <= b -> a <= v -> v <= b -> clamp v a b == v) /\
  (a <= b -> v <= a -> clamp v a b == a) /\
  (a <= b -> b <= v -> clamp v a b == b) /\
  (b < a -> clamp v a b = a).
Proof.
  split; [|split; [|split]].
  - intros. now apply clamp_inside.
  - intros. now apply clamp_below.
  - intros Hab Hv. unfold clamp. clamp_cases; lra.
  - apply clamp_empty.
Qed.

Lemma clamp_characterised_witness :
  clamp 0.5 0.28 0.9 == 0.5 /\ clamp 0.1 0.28 0.9 == 0.28 /\
  clamp 7 0.28 0.9 == 0.9 /\ clamp 7 0 (-8) = 0.
Proof.
  destruct (clamp_characterised 0.5 0.28 0.9) as (Hin & _).
  destruct (clamp_characterised 0.1 0.28 0.9) as (_ & Hlo & _).
  destruct (clamp_characterised 7 0.28 0.9) as (_ & _ & Hhi & _).
  destruct (clamp_characterised 7 0 (-8)) as (_ & _ & _ & Hempty).
  split; [apply Hin; vm_compute; discriminate|].
  split; [apply Hlo; vm_compute; discriminate|].
  split; [apply Hhi; vm_compute; discriminate|].
  apply Hempty. reflexivity.
Defined.

(** X2: [clamp] is monotone in the value it clamps, and clamping twice is
    clamping once, for any bounds. *)
Theorem clamp_monotone_idempotent (v v' a b : Q) :
  v <= v' ->
  clamp v a b <= clamp v' a b /\ clamp (clamp v a b) a b == clamp v a b.
Proof.
  intros Hv. split.
  - unfold clamp.
    destruct (Math_min_spec b v) as [[? ->]|[? ->]];
      destruct (Math_min_spec b v') as [[? ->]|[? ->]];
      repeat match goal with
             | |- context [Math_max ?p ?q] =>
                 let E := fresh "E" in
                 destruct (Math_max_spec p q) as [[? E]|[? E]]; rewrite E
             end; lra.
  - destruct (Qlt_le_dec b a) as [Hba|Hab].
    + rewrite (clamp_empty v a b Hba). rewrite (clamp_empty a a b Hba). reflexivity.
    + destruct (clamp_bounds v a b Hab). now apply clamp_inside.
Qed.

Lemma clamp_monotone_idempotent_witness :
  clamp (0.9 - 20 * 0.02) 0.28 0.9 <= clamp (0.9 - 10 * 0.02) 0.28 0.9.
Proof.
  apply (clamp_monotone_idempotent (0.9 - 20 * 0.02) (0.9 - 10 * 0.02) 0.28 0.9).
  vm_compute. discriminate.
Defined.

(** ** The key listeners *)

Lemma keydown_keys (key : string) (s : State) :
  exists k, keydown key s = set_keys k s.
Proof.
  unfold keydown.
  destruct (String.eqb key "ArrowLeft" || String.eqb key "a")%bool;
    destruct (String.eqb key "ArrowRight" || String.eqb key "d")%bool;
    simpl; eauto.
  exists (keys s). now destruct s.
Qed.

Lemma keyup_keys (key : string) (s : State) :
  exists k, keyup key s = set_keys k s.
Proof.
  unfold keyup.
  destruct (String.eqb key "ArrowLeft" || String.eqb key "a")%bool;
    destruct (String.eqb key "ArrowRight" || String.eqb key "d")%bool;
    simpl; eauto.
  exists (keys s). now destruct s.
Qed.

(** X6: a key other than ArrowLeft, a, ArrowRight and d changes nothing,
    neither when pressed nor when released. *)
Theorem key_unbound_ignored (key : string) (s : State) :
  bound_key key = false -> keydown key s = s /\ keyup key s = s.
Proof.
  unfold bound_key, keydown, keyup. intros Hk.
  apply orb_false_elim in Hk. destruct Hk as [Hk Hd].
  apply orb_false_elim in Hk. destruct Hk as [Hk Hr].
  apply orb_false_elim in Hk. destruct Hk as [Hl Ha].
  rewrite Hl, Ha, Hr, Hd. simpl. split; reflexivity.
Qed.

Lemma key_unbound_ignored_witness :
  keydown "ArrowUp" crowded = crowded /\ keyup "ArrowUp" crowded = crowded.
Proof. apply (key_unbound_ignored "ArrowUp" crowded). reflexivity. Defined.

(** X7: the key listeners change the two input flags and nothing else; of
    a press and a release of the same key the later one decides; and "a"
    does what ArrowLeft does, "d" what ArrowRight does. *)
Theorem key_last_event_wins (key : string) (s : State) :
  (exists k, keydown key s = set_keys k s) /\
  (exists k, keyup key s = set_keys k s) /\
  keyup key (keydown key s) = keyup key s /\
  keydown key (keyup key s) = keydown key s /\
  keydown "a" s = keydown "ArrowLeft" s /\ keyup "a" s = keyup "ArrowLeft" s /\
  keydown "d" s = keydown "ArrowRight" s /\ keyup "d" s = keyup "ArrowRight" s.
Proof.
  split; [apply keydown_keys|]. split; [apply keyup_keys|].
  split; [|split; [|repeat split]].
  - unfold keyup, keydown.
    destruct (String.eqb key "ArrowLeft" || String.eqb key "a")%bool;
      destruct (String.eqb key "ArrowRight" || String.eqb key "d")%bool;
      reflexivity.
  - unfold keyup, keydown.
    destruct (String.eqb key "ArrowLeft" || String.eqb key "a")%bool;
      destruct (String.eqb key "ArrowRight" || String.eqb key "d")%bool;
      reflexivity.
Qed.

(** ** More about [update] *)

Lemma beforeBlocks_rest (cv : Canvas.t) (d : Draws) (dt : Q) (s : State) :
  lastTime (beforeBlocks cv d dt s) = lastTime s /\
  score (beforeBlocks cv d dt s) = score s /\
  screen (beforeBlocks cv d dt s) = screen s.
Proof. unfold beforeBlocks; cbv zeta; simpl. qcase; repeat split. Qed.

(** What [update] leaves alone. *)
Lemma update_rest (cv : Canvas.t) (d : Draws) (dt : Q) (s : State) :
  exists s', update cv d dt s = Some s' /\
    lastTime s' = lastTime s /\ score s' = score s /\ screen s' = screen s /\
    keys s' = keys s /\
    player s' = Player.set_x (Player.x (player s')) (player s) /\
    (running s' = true -> running s = true).
Proof.
  rewrite update_eq. cbv zeta.
  destruct (beforeBlocks_rest cv d dt s) as (Hl & Hsc & Hscr).
  pose proof (beforeBlocks_keys cv d dt s) as Hk.
  pose proof (beforeBlocks_running cv d dt s) as Hrn.
  pose proof (beforeBlocks_player cv d dt s) as Hp.
  revert Hl Hsc Hscr Hk Hrn Hp. generalize (beforeBlocks cv d dt s).
  intros s1 Hl Hsc Hscr Hk Hrn Hp.
  eexists; split; [reflexivity|].
  cbn [lastTime score screen keys player running set_running set_blocks].
  rewrite Hl, Hsc, Hscr, Hk, Hp, Hrn. repeat split.
  intros Hr. apply andb_true_iff in Hr. tauto.
Qed.

Lemma survivors_length (cv : Canvas.t) (dt : Q) (bs : list Block.t) :
  (length (survivors cv dt bs) <= length bs)%nat.
Proof.
  unfold survivors.
  etransitivity; [apply List.filter_length_le|]. now rewrite length_map.
Qed.

(** X8: a player on the playfield, at a speed that is not negative, in a
    frame with [dt >= 0]: with no key or both keys held it stays where it
    is; with only the right key held it moves right by [speed * dt], but
    not beyond [playfieldWidth - w]; with only the left key held it moves
    left by [speed * dt], but not beyond 0. *)
Theorem update_moves_player (cv : Canvas.t) (d : Draws) (dt : Q) (s : State) :
  0 <= dt -> 0 <= Player.speed (player s) ->
  0 <= Player.x (player s) ->
  Player.x (player s) <= canvas_width cv - Player.w (player s) ->
  exists s', update cv d dt s = Some s' /\
    (Keys.left (keys s) = Keys.right (keys s) ->
     Player.x (player s') == Player.x (player s)) /\
    (Keys.left (keys s) = false -> Keys.right (keys s) = true ->
     Player.x (player s')
     == Math_min (Player.x (player s) + Player.speed (player s) * dt)
                 (canvas_width cv - Player.w (player s))) /\
    (Keys.left (keys s) = true -> Keys.right (keys s) = false ->
     Player.x (player s')
     == Math_max (Player.x (player s) - Player.speed (player s) * dt) 0).
Proof.
  intros Hdt Hsp Hx0 Hx1.
  destruct (update_fields cv d dt s) as (s' & Hu & _ & _ & _ & Hp & _).
  exists s'. split; [exact Hu|]. rewrite Hp. unfold movedPlayer. cbv zeta.
  assert (Hstep : 0 <= Player.speed (player s) * dt) by nra.
  simpl Player.x. split; [|split].
  - intros Hk. rewrite Hk.
    destruct (Keys.right (keys s));
      match goal with
      | |- clamp ?v _ _ == _ => transitivity v; [apply clamp_inside|]
      end; lra.
  - intros -> ->.
    destruct (Math_min_spec (Player.x (player s) + Player.speed (player s) * dt)
                            (canvas_width cv - Player.w (player s)))
      as [[? ->]|[? ->]].
    + rewrite clamp_inside; lra.
    + unfold clamp. clamp_cases; lra.
  - intros -> ->.
    destruct (Math_max_spec (Player.x (player s) - Player.speed (player s) * dt) 0)
      as [[? ->]|[? ->]].
    + apply clamp_below; lra.
    + rewrite clamp_inside; lra.
Qed.

(** Half a second of "move left" from the centre of the 480 wide canvas:
    226 - 140. *)
Lemma update_moves_player_witness :
  exists s', update arena low_draws 0.5 (keydown "a" (loaded arena)) = Some s' /\
    Player.x (player s') == 86.
Proof.
  destruct (update_moves_player arena low_draws 0.5 (keydown "a" (loaded arena)))
    as (s' & Hu & _ & _ & Hleft); try (vm_compute; discriminate).
  exists s'. split; [exact Hu|].
  rewrite Hleft by reflexivity. vm_compute. reflexivity.
Defined.

(** X9: [update] does not touch [lastTime], the input flags, the score
    label or the canvas, changes nothing of the player but its x, and never
    turns [running] on. *)
Theorem update_untouched (cv : Canvas.t) (d : Draws) (dt : Q) (s : State) :
  exists s', update cv d dt s = Some s' /\
    lastTime s' = lastTime s /\ keys s' = keys s /\
    score s' = score s /\ screen s' = screen s /\
    Player.y (player s') = Player.y (player s) /\
    Player.w (player s') = Player.w (player s) /\
    Player.h (player s') = Player.h (player s) /\
    Player.speed (player s') = Player.speed (player s) /\
    Player.vx (player s') = Player.vx (player s) /\
    (running s' = true -> running s = true).
Proof.
  destruct (update_rest cv d dt s) as (s' & Hu & Hl & Hsc & Hscr & Hk & Hp & Hr).
  exists s'. rewrite Hp. simpl. repeat split; assumption.
Qed.

(** The frame in which the crowded game ends. *)
Lemma update_untouched_witness :
  exists s', update arena some_draws 0.02 crowded = Some s' /\
    keys s' = keys crowded /\ screen s' = screen crowded /\
    Player.y (player s') = Player.y (player crowded).
Proof.
  destruct (update_untouched arena some_draws 0.02 crowded)
    as (s' & Hu & _ & Hk & _ & Hscr & Hy & _).
  exists s'. repeat split; assumption.
Defined.

(** X10: one call of [update] adds at most one block to the collection,
    however long the frame; it spawns nothing while the timer plus [dt] is
    below 0.28, in which case the timer just advances; and it spawns, and
    starts the timer again from 0, as soon as the timer plus [dt] has reached
    0.9. *)
Theorem update_spawn_timing (cv : Canvas.t) (d : Draws) (dt : Q) (s : State) :
  exists s', update cv d dt s = Some s' /\
    (length (blocks s') <= S (length (blocks s)))%nat /\
    (spawnTimer s' = 0 \/ spawnTimer s' = spawnTimer s + dt) /\
    (spawnTimer s + dt < 0.28 ->
     spawnTimer s' = spawnTimer s + dt /\
     (length (blocks s') <= length (blocks s))%nat) /\
    (0.9 <= spawnTimer s + dt ->
     spawnTimer s' = 0 /\
     exists b, blocks (beforeBlocks cv d dt s) = blocks s ++ [b]).
Proof.
  destruct (update_fields cv d dt s) as (s' & Hu & _ & _ & Ht & _ & _ & Hbs & _).
  exists s'. split; [exact Hu|]. rewrite Ht, Hbs.
  pose proof (survivors_length cv dt (blocks (beforeBlocks cv d dt s))) as Hlen.
  rewrite beforeBlocks_blocks in *.
  destruct (clamp_bounds (0.9 - (elapsed s + dt) * 0.02) 0.28 0.9) as [Hlo Hhi]; [lra|].
  unfold spawnDue in *.
  destruct (Qle_bool (clamp (0.9 - (elapsed s + dt) * 0.02) 0.28 0.9) (spawnTimer s + dt))
    eqn:Hdue; qprop.
  - unfold spawnBlock in *. cbv zeta in *. simpl blocks in *.
    rewrite length_app in Hlen. simpl in Hlen.
    split; [lia|]. split; [now left|]. split; [intros; lra|].
    intros _. split; [reflexivity|]. eauto.
  - split; [lia|]. split; [now right|]. split; [intros; split; [reflexivity|lia]|].
    intros; lra.
Qed.

(** A frame of five seconds right after loading: one block, not several. *)
Lemma update_spawn_timing_witness :
  exists s', update arena some_draws 5 (loaded arena) = Some s' /\
    (length (blocks s') <= 1)%nat /\ spawnTimer s' = 0.
Proof.
  destruct (update_spawn_timing arena some_draws 5 (loaded arena))
    as (s' & Hu & Hlen & _ & _ & Hlate).
  exists s'. split; [exact Hu|]. split; [exact Hlen|].
  apply Hlate. vm_compute. discriminate.
Defined.

(** ** Reachable states are tidy *)

Lemma tidy_same (cv : Canvas.t) (s t : State) :
  elapsed t = elapsed s -> spawnTimer t = spawnTimer s ->
  spawnInterval t = spawnInterval s -> player t = player s ->
  blocks t = blocks s -> tidy cv s -> tidy cv t.
Proof.
  unfold tidy. intros -> -> -> -> ->. trivial.
Qed.

Lemma tidy_resetGame (cv : Canvas.t) (s0 : State) : tidy cv (resetGame cv s0).
Proof.
  unfold tidy, resetGame, updateScoreDisplay. simpl.
  split; [lra|]. split; [rewrite clamp_inside; lra|].
  split; [|constructor].
  intros Hfit.
  assert (Hhalf : Player.w (player s0) / 2 <= canvas_width cv / 2).
  { apply Qmult_le_compat_r; [exact Hfit|]. vm_compute. discriminate. }
  assert (Hw : Player.w (player s0) == Player.w (player s0) / 2 + Player.w (player s0) / 2)
    by field.
  assert (HW : canvas_width cv == canvas_width cv / 2 + canvas_width cv / 2) by field.
  split; lra.
Qed.

Lemma tidy_keydown (cv : Canvas.t) (key : string) (s : State) :
  tidy cv s -> tidy cv (keydown key s).
Proof.
  destruct (keydown_keys key s) as [k ->]. now apply tidy_same.
Qed.

Lemma tidy_keyup (cv : Canvas.t) (key : string) (s : State) :
  tidy cv s -> tidy cv (keyup key s).
Proof.
  destruct (keyup_keys key s) as [k ->]. now apply tidy_same.
Qed.

Lemma tidy_clickStart (cv : Canvas.t) (now : Q) (s : State) :
  tidy cv s -> tidy cv (fst (clickStart cv now s)).
Proof.
  intros Hs. unfold clickStart, startGame. destruct (running s); [exact Hs|].
  cbv zeta. cbn [negb fst].
  pose proof (tidy_resetGame cv s) as Hr.
  revert Hr. generalize (resetGame cv s). intros r Hr.
  apply tidy_same with r; try reflexivity. exact Hr.
Qed.

(** The block [spawnBlock] pushes is well formed. *)
Lemma spawnBlock_well_formed (cv : Canvas.t) (d : Draws) (s : State) :
  unit_draws d ->
  exists b, blocks (spawnBlock cv d s) = blocks s ++ [b] /\ well_formed_block cv b.
Proof.
  intros (Hw & Hx & _ & _). unfold spawnBlock. cbv zeta.
  eexists. split; [reflexivity|]. unfold well_formed_block.
  cbn [Block.w Block.h Block.x Block.y].
  destruct (rand_range (draw_width d) 30 70 Hw) as [Hlo Hhi]; [lra|].
  split; [eexists; split; [reflexivity|];
          split; [now apply Qfloor_ge|apply Z.lt_le_incl; now apply Qfloor_lt]|].
  split; [reflexivity|]. split; [eexists; reflexivity|]. split; [lra|].
  intros Hwide.
  set (bw := Math_floor (rand (draw_width d) 30 70)).
  assert (Hbw : bw < 70)
    by (apply Qle_lt_trans with (rand (draw_width d) 30 70);
        [apply Math_floor_le|exact Hhi]).
  destruct (rand_range (draw_x d) 0 (canvas_width cv - bw) Hx) as [Hxlo Hxhi]; [lra|].
  split; [now apply (Math_floor_ge 0)|].
  pose proof (Math_floor_le (rand (draw_x d) 0 (canvas_width cv - bw))). lra.
Qed.

(** Falling keeps a block well formed. *)
Lemma survivors_well_formed (cv : Canvas.t) (dt : Q) (bs : list Block.t) :
  0 <= dt ->
  Forall (fun b => 120 <= Block.speed b /\ Block.y b <= canvas_height cv) bs ->
  Forall (well_formed_block cv) bs ->
  Forall (well_formed_block cv) (survivors cv dt bs).
Proof.
  intros Hdt Hfast Hwf. apply List.Forall_forall. intros b' Hin.
  apply survivors_In in Hin. destruct Hin as (b & Hb & -> & _).
  rewrite List.Forall_forall in Hfast, Hwf.
  destruct (Hfast b Hb) as [Hsp _].
  destruct (Hwf b Hb) as (Hw & Hh & Hx & Hy & Hin).
  unfold well_formed_block. rewrite fall_y.
  change (Block.w (fall dt b)) with (Block.w b).
  change (Block.h (fall dt b)) with (Block.h b).
  change (Block.x (fall dt b)) with (Block.x b).
  repeat split; try assumption; try (now apply Hin). nra.
Qed.

Lemma tidy_update (cv : Canvas.t) (d : Draws) (dt : Q) (s s' : State) :
  healthy cv s -> tidy cv s -> 0 <= dt -> unit_draws d ->
  update cv d dt s = Some s' -> tidy cv s'.
Proof.
  intros Hh (Ht & _ & _ & Hwf) Hdt Hd Hu.
  pose proof (beforeBlocks_blocks_ok cv d dt s Hh Hdt Hd) as Hok.
  destruct (update_fields cv d dt s)
    as (t & Hu' & Het & Hit & Htt & Hpt & _ & Hbt & _).
  rewrite Hu in Hu'. injection Hu' as <-.
  unfold tidy. rewrite Het, Hit, Htt, Hpt, Hbt.
  split; [destruct (spawnDue dt s); lra|]. split; [reflexivity|]. split.
  - unfold movedPlayer. simpl. intros Hfit. apply clamp_bounds. lra.
  - apply survivors_well_formed; [exact Hdt|exact Hok|].
    rewrite beforeBlocks_blocks. destruct (spawnDue dt s); [|exact Hwf].
    destruct (spawnBlock_well_formed cv d (set_elapsed (elapsed s + dt) s) Hd)
      as (b & -> & Hb).
    apply Forall_app. split; [exact Hwf|]. now constructor.
Qed.

Lemma tidy_loop (cv : Canvas.t) (d : Draws) (now : Q) (s : State) (r : State * bool) :
  healthy cv s -> tidy cv s -> lastTime s <= now -> unit_draws d ->
  loop cv d now s = Some r -> tidy cv (fst r).
Proof.
  intros Hh Hs Hnow Hd. unfold loop. destruct (running s); simpl.
  - destruct (update cv d ((now - lastTime s) / 1000) (set_lastTime now s)) as [t|] eqn:Hu;
      [|discriminate].
    intros [= <-]. simpl.
    apply tidy_same with t; try reflexivity.
    apply (tidy_update cv d ((now - lastTime s) / 1000) (set_lastTime now s)); trivial.
    apply Qle_shift_div_l; lra.
  - intros [= <-]. exact Hs.
Qed.

Lemma reachable_tidy (cv : Canvas.t) (s : State) : reachable cv s -> tidy cv s.
Proof.
  induction 1 as [s0|key s _ IH|key s _ IH|now s _ IH|d dt s s' Hr IH Hdt Hd Hu
                 |d now s r Hr IH Hnow Hd Hl].
  - apply tidy_resetGame.
  - now apply tidy_keydown.
  - now apply tidy_keyup.
  - now apply tidy_clickStart.
  - apply (tidy_update cv d dt s); trivial. now apply reachable_healthy.
  - apply (tidy_loop cv d now s); trivial. now apply reachable_healthy.
Qed.

(** X11: in every reachable state the elapsed time and the spawn timer are
    not negative and the spawn interval is
    [clamp(0.9 - elapsed*0.02, 0.28, 0.9)] for the elapsed time of that
    state; and an [update(dt)] with [dt >= 0] never makes the spawn interval
    longer. *)
Theorem spawnInterval_tracks_elapsed (cv : Canvas.t) (s : State) :
  reachable cv s ->
  0 <= elapsed s /\ 0 <= spawnTimer s /\
  spawnInterval s == clamp (0.9 - elapsed s * 0.02) 0.28 0.9 /\
  (forall (d : Draws) (dt : Q), 0 <= dt ->
     exists s', update cv d dt s = Some s' /\ spawnInterval s' <= spawnInterval s).
Proof.
  intros Hr.
  destruct (reachable_healthy cv s Hr) as (He & _).
  destruct (reachable_tidy cv s Hr) as (Ht & Hi & _).
  repeat split; try assumption.
  intros d dt Hdt.
  destruct (update_fields cv d dt s) as (s' & Hu & _ & Hi' & _).
  exists s'. split; [exact Hu|]. rewrite Hi', Hi.
  unfold clamp.
  destruct (Math_min_spec 0.9 (0.9 - (elapsed s + dt) * 0.02)) as [[? ->]|[? ->]];
    destruct (Math_min_spec 0.9 (0.9 - elapsed s * 0.02)) as [[? ->]|[? ->]];
    repeat match goal with
           | |- context [Math_max ?p ?q] =>
               let E := fresh "E" in
               destruct (Math_max_spec p q) as [[? E]|[? E]]; rewrite E
           end; lra.
Qed.

Lemma spawnInterval_tracks_elapsed_witness :
  exists s', update arena some_draws 1 (loaded arena) = Some s' /\
    spawnInterval s' <= spawnInterval (loaded arena).
Proof.
  apply (spawnInterval_tracks_elapsed arena (loaded arena)
           (reach_reset arena (initial arena))).
  vm_compute. discriminate.
Defined.

(** X12: in every reachable state every block of the collection is well
    formed: a square whose side is an integer from 30 to 70, at an integer
    x, at or below its starting height [-w], and, on a playfield more than
    70 wide, between the left and the right edge of the playfield. *)
Theorem reachable_blocks_well_formed (cv : Canvas.t) (s : State) :
  reachable cv s -> Forall (well_formed_block cv) (blocks s).
Proof.
  intros Hr. now destruct (reachable_tidy cv s Hr) as (_ & _ & _ & Hwf).
Qed.

(** The block spawned in the first second of a game. *)
Lemma reachable_blocks_well_formed_witness :
  exists s1, update arena some_draws 1 (loaded arena) = Some s1 /\
    length (blocks s1) = 1%nat /\
    Forall (well_formed_block arena) (blocks s1).
Proof.
  eexists. split; [vm_compute; reflexivity|]. split; [reflexivity|].
  apply reachable_blocks_well_formed.
  apply (reach_update arena some_draws 1 (loaded arena)).
  - apply reach_reset.
  - vm_compute. discriminate.
  - repeat split; vm_compute; congruence.
  - vm_compute. reflexivity.
Defined.

(** X13: in every reachable state a player that is not wider than the
    playfield lies within it, [0 <= x <= playfieldWidth - w], and its lower
    edge is 20 above the bottom of the playfield. *)
Theorem reachable_player_within_playfield (cv : Canvas.t) (s : State) :
  reachable cv s -> Player.w (player s) <= canvas_width cv ->
  0 <= Player.x (player s) /\
  Player.x (player s) <= canvas_width cv - Player.w (player s) /\
  Player.y (player s) + Player.h (player s) == canvas_height cv - 20.
Proof.
  intros Hr Hfit.
  destruct (reachable_healthy cv s Hr) as (_ & _ & _ & Hy & _).
  destruct (reachable_tidy cv s Hr) as (_ & _ & Hx & _).
  destruct (Hx Hfit). repeat split; assumption.
Qed.

Lemma reachable_player_within_playfield_witness :
  0 <= Player.x (player (keydown "d" (loaded arena))) /\
  Player.x (player (keydown "d" (loaded arena)))
  <= canvas_width arena - Player.w (player (keydown "d" (loaded arena))) /\
  Player.y (player (keydown "d" (loaded arena)))
  + Player.h (player (keydown "d" (loaded arena))) == canvas_height arena - 20.
Proof.
  apply (reachable_player_within_playfield arena (keydown "d" (loaded arena))).
  - apply reach_keydown. apply reach_reset.
  - vm_compute. discriminate.
Defined.

(** ** Starting a run *)

(** X14: a click on the start button while the game runs changes nothing
    and requests no frame; while it does not run, the click leaves a
    running game with [lastTime] at the time of the click, no elapsed time,
    no blocks, cleared input flags and 0 on the score label, and requests a
    frame; a second click right after any click is ignored. *)
Theorem clickStart_once (cv : Canvas.t) (now now' : Q) (s : State) :
  (running s = true -> clickStart cv now s = (s, false)) /\
  (running s = false ->
   exists s', clickStart cv now s = (s', true) /\
     running s' = true /\ lastTime s' = now /\ elapsed s' = 0 /\
     spawnTimer s' = 0 /\ spawnInterval s' = 0.9 /\ blocks s' = [] /\
     keys s' = Keys.mk false false /\ score s' = Some 0) /\
  clickStart cv now' (fst (clickStart cv now s)) = (fst (clickStart cv now s), false).
Proof.
  destruct s as [r lt e st si bs [pw ph px py ps pv] [kl kr] sc scr].
  unfold clickStart, startGame, resetGame, updateScoreDisplay.
  destruct r; simpl; repeat split; try discriminate.
  intros _. eexists. repeat split.
Qed.

Lemma clickStart_once_witness :
  clickStart arena 2000 crowded = (crowded, false) /\
  exists s', clickStart arena 2000 (endGame crowded) = (s', true) /\ blocks s' = [].
Proof.
  destruct (clickStart_once arena 2000 2000 crowded) as (Hon & _).
  destruct (clickStart_once arena 2000 2000 (endGame crowded)) as (_ & Hoff & _).
  split; [apply Hon; reflexivity|].
  destruct (Hoff eq_refl) as (s' & Hs' & _ & _ & _ & _ & _ & Hbs & _).
  exists s'. split; [exact Hs'|exact Hbs].
Defined.

(** X15: what the keys did before a run is started is forgotten: a click
    on the start button of a game that is not running gives the same state
    whether or not a key event came before it. *)
Theorem keys_before_start_forgotten (cv : Canvas.t) (now : Q) (key : string) (s : State) :
  running s = false ->
  clickStart cv now (keydown key s) = clickStart cv now s /\
  clickStart cv now (keyup key s) = clickStart cv now s.
Proof.
  intros Hr.
  destruct (keydown_keys key s) as [k ->]. destruct (keyup_keys key s) as [k' ->].
  destruct s as [r lt e st si bs [pw ph px py ps pv] [kl kr] sc scr].
  simpl in Hr. subst r. split; reflexivity.
Qed.

Lemma keys_before_start_forgotten_witness :
  clickStart arena 2000 (keydown "ArrowRight" (loaded arena))
  = clickStart arena 2000 (loaded arena).
Proof.
  exact (proj1 (keys_before_start_forgotten arena 2000 "ArrowRight" (loaded arena)
                                            eq_refl)).
Defined.

(** ** Frames of a running game *)

(** What a frame callback does while the game runs. *)
Lemma loop_running (cv : Canvas.t) (d : Draws) (now : Q) (s : State) :
  running s = true ->
  exists s', loop cv d now s = Some (s', true) /\
    lastTime s' = now /\
    elapsed s' = elapsed s + (now - lastTime s) / 1000 /\
    score s' = Some (elapsed s') /\
    screen s' = draw cv s' /\
    keys s' = keys s.
Proof.
  intros Hr. unfold loop. rewrite Hr. cbn [negb]. cbv zeta.
  destruct (update_fields cv d ((now - lastTime s) / 1000) (set_lastTime now s))
    as (t & Hu & He & _).
  destruct (update_rest cv d ((now - lastTime s) / 1000) (set_lastTime now s))
    as (t' & Hu' & Hl & _ & _ & Hk & _).
  rewrite Hu in Hu'. injection Hu' as <-. rewrite Hu.
  eexists. split; [reflexivity|].
  cbn [lastTime elapsed score screen keys updateScoreDisplay set_score set_screen].
  rewrite Hl, He, Hk. repeat split.
Qed.

(** X16: while the game runs, a frame callback advances the elapsed time
    by the time since the last frame in seconds, sets [lastTime] to its
    timestamp, leaves the input flags alone, draws the new state, shows the
    new elapsed time on the score label and requests another frame, also
    when the game ended in this very frame; the callback after such a frame
    changes nothing and requests none. *)
Theorem loop_running_frame (cv : Canvas.t) (d d' : Draws) (now now' : Q) (s : State) :
  running s = true ->
  exists s', loop cv d now s = Some (s', true) /\
    lastTime s' = now /\
    elapsed s' = elapsed s + (now - lastTime s) / 1000 /\
    score s' = Some (elapsed s') /\
    screen s' = draw cv s' /\
    keys s' = keys s /\
    (running s' = false -> loop cv d' now' s' = Some (s', false)).
Proof.
  intros Hr.
  destruct (loop_running cv d now s Hr) as (s' & Hl & Hlt & He & Hsc & Hscr & Hk).
  exists s'. repeat split; try assumption. apply loop_not_running.
Qed.

(** The frame in which the crowded game ends: it is drawn, the score label
    shows the new time, another frame is requested, and that one does
    nothing. *)
Lemma loop_running_frame_witness :
  exists s', loop arena some_draws 20 crowded = Some (s', true) /\
    running s' = false /\ score s' = Some (elapsed s') /\
    loop arena some_draws 36 s' = Some (s', false).
Proof.
  destruct (loop_running_frame arena some_draws some_draws 20 36 crowded)
    as (s' & Hl & _ & _ & Hsc & _ & _ & Hnext); [reflexivity|].
  assert (Hs' : loop arena some_draws 20 crowded = Some (s', true)) by exact Hl.
  vm_compute in Hs'. injection Hs' as Hs'.
  assert (Hover : running s' = false) by (rewrite <- Hs'; reflexivity).
  exists s'. split; [exact Hl|]. split; [exact Hover|].
  split; [exact Hsc|]. apply Hnext. exact Hover.
Defined.

(** ** After the game is over, without a click *)

Lemma set_keys_set_keys (k k' : Keys.t) (s : State) :
  set_keys k' (set_keys k s) = set_keys k' s.
Proof. reflexivity. Qed.

Lemma set_keys_same (s : State) : set_keys (keys s) s = s.
Proof. now destruct s. Qed.

(** X18: while the game does not run, key events and frame callbacks change
    nothing but the input flags: elapsed time, timers, blocks, player,
    score label and canvas stay as they are until the start button is
    clicked. *)
Theorem stopped_stays_frozen (cv : Canvas.t) (es : list Event) (s : State) :
  running s = false -> forallb (fun e => negb (is_click e)) es = true ->
  exists k, run cv es s = Some (set_keys k s).
Proof.
  revert s. induction es as [|e es IH]; intros s Hr Hes; simpl in *.
  - exists (keys s). now rewrite set_keys_same.
  - apply andb_true_iff in Hes. destruct Hes as [He Hes].
    destruct e as [key|key|now|d now]; simpl in *; try discriminate.
    + destruct (keydown_keys key s) as [k1 ->].
      destruct (IH (set_keys k1 s) Hr Hes) as [k ->]. now exists k.
    + destruct (keyup_keys key s) as [k1 ->].
      destruct (IH (set_keys k1 s) Hr Hes) as [k ->]. now exists k.
    + rewrite (loop_not_running cv d now s Hr). now apply IH.
Qed.

Lemma stopped_stays_frozen_witness :
  exists k,
    run arena [KeyDown "a"; Frame some_draws 16; KeyUp "a"; KeyDown "d"; Frame some_draws 33]
        (endGame crowded)
    = Some (set_keys k (endGame crowded)).
Proof.
  apply (stopped_stays_frozen arena
           [KeyDown "a"; Frame some_draws 16; KeyUp "a"; KeyDown "d"; Frame some_draws 33]
           (endGame crowded)); reflexivity.
Defined.
